(** * The cats API of the NestJS webinar: services, controller, ping

    A shallow embedding of the TypeScript classes of the walkthrough:
    the in-memory [CatsService] (README, "Controllers, Modules,
    Providers"), the repository-backed [CatsService]
    (src/cats/cats.service.ts), the [CatsController] that is injected
    with either of them, and [AppController.ping].

    Objects that are mutated in place in the source ([this.cats.push])
    are modelled by explicit state passing: a method takes the object
    state [this] and returns its result together with the new state. *)

From Stdlib Require Import ZArith List String Bool Lia.
Import ListNotations.

Set Implicit Arguments.

(** ** Data model *)

(** [interface Cat { id: number; name: string; color?: string; created: Date }].
    The interface is erased at run time and the controller takes the
    request body as it comes ([@Body() cat: Cat], no validation pipe), so
    a field of the body may be missing whatever the interface says:
    every field is an [option].  A [Date] is an instant, kept as the
    integer number of milliseconds it stands for. *)
Record Cat : Type := mkCat {
  id      : option Z;
  name    : option string;
  color   : option string;
  created : option Z
}.

(** The outcome of a settled [Promise<A>]: an [async] method resolves
    with the value it returns or rejects with what was thrown. *)
Inductive Promise (A : Type) : Type :=
| Resolved (value : A)
| Rejected (reason : string).

Arguments Resolved {A} value.
Arguments Rejected {A} reason.

(** ** The in-memory [CatsService] (README lines 98-110) *)
Module MemoryCatsService.

(** [private readonly cats: Cat[] = [];] *)
Record CatsService : Type := { cats : list Cat }.

(** The state of a freshly constructed service. *)
Definition new : CatsService := {| cats := [] |}.

(** [create(cat: Cat): Cat { this.cats.push(cat); return cat }] *)
Definition create (cat : Cat) (this : CatsService) : Cat * CatsService :=
  (cat, {| cats := cats this ++ [cat] |}).

(** [findAll(): Cat[] { return this.cats; }]: the array itself, which
    the controller hands to the framework to be serialised at once. *)
Definition findAll (this : CatsService) : list Cat * CatsService :=
  (cats this, this).

End MemoryCatsService.

(** ** What the controller needs of the injected service

    [constructor(private catsService: CatsService)]: the controller
    calls [create] and [findAll] of whatever provider is registered
    under [CatsService], and awaits what they return.  A synchronous
    method (the in-memory service) yields a resolved promise. *)
Class Store (S : Type) : Type := {
  store_create  : Cat -> S -> Promise Cat * S;
  store_findAll : S -> Promise (list Cat) * S
}.

#[export] Instance MemoryStore : Store MemoryCatsService.CatsService := {
  store_create cat this :=
    let (r, this') := MemoryCatsService.create cat this in (Resolved r, this');
  store_findAll this :=
    let (r, this') := MemoryCatsService.findAll this in (Resolved r, this')
}.

(** ** The repository-backed [CatsService] (src/cats/cats.service.ts) *)

(** The two methods of TypeORM's [Repository<CatEntity>] that the service
    calls.  The repository is a collaborator from a library: the service
    is defined over any implementation of it. *)
Class Repository (R : Type) : Type := {
  save : Cat -> R -> Promise Cat * R;
  find : R -> Promise (list Cat) * R
}.

Module RepositoryCatsService.
Section WithRepository.

Context {R : Type} `{Repository R}.

(** [constructor(@InjectRepository(CatEntity) private repository: Repository<CatEntity>) {}]
    and [private readonly cats: Cat[] = [];] *)
Record CatsService : Type := { repository : R; cats : list Cat }.

(** The state after the constructor has run. *)
Definition new (repo : R) : CatsService :=
  {| repository := repo; cats := [] |}.

(** [async create(cat: Cat): Promise<Cat> { return this.repository.save(cat) }] *)
Definition create (cat : Cat) (this : CatsService) : Promise Cat * CatsService :=
  let (r, repo') := save cat (repository this) in
  (r, {| repository := repo'; cats := cats this |}).

(** [async findAll(): Promise<Cat[]> { return this.repository.find() }] *)
Definition findAll (this : CatsService) : Promise (list Cat) * CatsService :=
  let (r, repo') := find (repository this) in
  (r, {| repository := repo'; cats := cats this |}).

End WithRepository.
Arguments CatsService R : clear implicits.
End RepositoryCatsService.

#[export] Instance RepositoryStore {R : Type} `{Repository R}
  : Store (RepositoryCatsService.CatsService R) := {
  store_create  := RepositoryCatsService.create;
  store_findAll := RepositoryCatsService.findAll
}.

(** ** [CatsController] (src/cats/cats.controller.ts) *)
Module CatsController.
Section WithService.

Context {S : Type} `{Store S}.

(** [constructor(private catsService: CatsService) {}]: the injected
    service is the controller's only field. *)
Record CatsController : Type := { catsService : S }.

(** [async create(@Body() cat: Cat): Promise<Cat> { return this.catsService.create(cat); }] *)
Definition create (cat : Cat) (this : CatsController)
  : Promise Cat * CatsController :=
  let (r, svc') := store_create cat (catsService this) in
  (r, {| catsService := svc' |}).

(** [async findAll(): Promise<Cat[]> { return this.catsService.findAll(); }] *)
Definition findAll (this : CatsController)
  : Promise (list Cat) * CatsController :=
  let (r, svc') := store_findAll (catsService this) in
  (r, {| catsService := svc' |}).

End WithService.
Arguments CatsController S : clear implicits.
End CatsController.

(** ** [AppController.ping] (README lines 42-45) *)
Module AppController.

(** [constructor(private readonly appService: AppService) {}] *)
Record AppController (AppService : Type) : Type := { appService : AppService }.

(** What a template literal makes of [${userAgent}]: the header's
    value, or the text of [undefined] when the request has no such
    header. *)
Definition interpolate (v : option string) : string :=
  match v with
  | Some s => s
  | None => "undefined"
  end.

(** [ping(@Headers('user-agent') userAgent: string): string { return `pong - ${userAgent}`; }] *)
Definition ping {AppService : Type} (this : AppController AppService)
           (userAgent : option string) : string :=
  ("pong - " ++ interpolate userAgent)%string.

End AppController.

(** ** Requests and responses of the [cats] routes

    [@Controller('cats')] with [@Post()] on [create] and [@Get()] on
    [findAll]: a POST carries a body and is answered with what [create]
    settles to, a GET is answered with what [findAll] settles to. *)
Inductive Request : Type :=
| Post (body : Cat)
| Get.

Inductive Response : Type :=
| CatResponse (r : Promise Cat)
| ListResponse (r : Promise (list Cat)).

Section Serving.

Context {S : Type} `{Store S}.

(** One request routed to the controller's handler. *)
Definition dispatch (req : Request) (this : CatsController.CatsController S)
  : Response * CatsController.CatsController S :=
  match req with
  | Post body =>
      let (r, this') := CatsController.create body this in (CatResponse r, this')
  | Get =>
      let (r, this') := CatsController.findAll this in (ListResponse r, this')
  end.

(** A sequence of requests served one after the other. *)
Fixpoint serve (reqs : list Request) (this : CatsController.CatsController S)
  : list Response * CatsController.CatsController S :=
  match reqs with
  | [] => ([], this)
  | req :: reqs' =>
      let (resp, this') := dispatch req this in
      let (resps, this'') := serve reqs' this' in
      (resp :: resps, this'')
  end.

(** The same operations called on the service itself, with no
    controller in between. *)
Definition call (req : Request) (svc : S) : Response * S :=
  match req with
  | Post body => let (r, svc') := store_create body svc in (CatResponse r, svc')
  | Get => let (r, svc') := store_findAll svc in (ListResponse r, svc')
  end.

Fixpoint calls (reqs : list Request) (svc : S) : list Response * S :=
  match reqs with
  | [] => ([], svc)
  | req :: reqs' =>
      let (resp, svc') := call req svc in
      let (resps, svc'') := calls reqs' svc' in
      (resp :: resps, svc'')
  end.

End Serving.

(** The bodies of the POST requests of a sequence, in order. *)
Fixpoint posted (reqs : list Request) : list Cat :=
  match reqs with
  | [] => []
  | Post body :: reqs' => body :: posted reqs'
  | Get :: reqs' => posted reqs'
  end.

(** ** The table behind the repository *)
Module CatsTable.

(** Modelled from the spec: the state of the durable backend, reached
    through TypeORM's [Repository<CatEntity>], a library that is not
    part of this repository.  Section 6: "a single table/collection
    named for the resource, with columns/fields id (generated primary
    key), name, color (nullable), created (generation-time timestamp,
    non-updatable)", which is what cat.entity.ts declares with
    [@PrimaryGeneratedColumn() id], [@Column() name],
    [@Column({ nullable: true }) color] and
    [@Column({ type: 'timestamp', update: false, default: () => 'now()' }) created].
    [rows] is the table in insertion order, [sequence] the last
    generated id, and [now i] the instant at which the insertion that
    generates id [i] runs (the database's clock). *)
Record Database : Type := {
  rows     : list Cat;
  sequence : Z;
  now      : Z -> Z
}.

(** Modelled from the spec: the empty table of a new database. *)
Definition empty (clock : Z -> Z) : Database :=
  {| rows := []; sequence := 0; now := clock |}.

(** Modelled from the spec: section 4.1, create "assigns a fresh unique
    id and a created timestamp equal to the current time, appends the
    resulting Cat to the collection, returns the stored Cat", with no
    failure "beyond whatever the backend enforces (e.g., name
    required)".  Ids are generated 1, 2, 3, ... (section 8: the first
    created Cat has id 1). *)
Definition table_save (cat : Cat) (db : Database) : Promise Cat * Database :=
  match name cat with
  | None => (Rejected "null value in column name", db)
  | Some _ =>
      let i := (sequence db + 1)%Z in
      let stored := {| id := Some i; name := name cat; color := color cat;
                       created := Some (now db i) |} in
      (Resolved stored,
       {| rows := rows db ++ [stored]; sequence := i; now := now db |})
  end.

(** Modelled from the spec: section 4.1, findAll "returns the full
    collection of Cats as an ordered sequence".  For the durable variant
    the spec leaves the order to the backend ("typically
    insertion/primary-key order"): the rows are returned in that typical
    order, and nothing stated below about the two backends rests on it. *)
Definition table_find (db : Database) : Promise (list Cat) * Database :=
  (Resolved (rows db), db).

End CatsTable.

(** Modelled from the spec: the repository over the [cats] table. *)
#[export] Instance TableRepository : Repository CatsTable.Database := {
  save := CatsTable.table_save;
  find := CatsTable.table_find
}.

(** ** The two backends behind the same controller *)

(** The controller over a new in-memory service. *)
Definition volatile : CatsController.CatsController MemoryCatsService.CatsService :=
  {| CatsController.catsService := MemoryCatsService.new |}.

(** The repository-backed service on the [cats] table. *)
Abbreviation TableService := (RepositoryCatsService.CatsService CatsTable.Database).

(** The controller over a service on an empty table. *)
Definition durable (clock : Z -> Z) : CatsController.CatsController TableService :=
  {| CatsController.catsService := RepositoryCatsService.new (CatsTable.empty clock) |}.

(** ** The shape of a response

    Section 6 of the spec gives the created Cat as
    [{id, name, color?, created}]: the shape of a Cat is which of its
    fields are there, the shape of a list is the shapes of its elements,
    and a rejected promise has the shape of an error. *)
Definition present {A : Type} (o : option A) : bool :=
  match o with
  | Some _ => true
  | None => false
  end.

Record CatShape : Type := {
  has_id      : bool;
  has_name    : bool;
  has_color   : bool;
  has_created : bool
}.

Definition shape_of_cat (c : Cat) : CatShape :=
  {| has_id := present (id c); has_name := present (name c);
     has_color := present (color c); has_created := present (created c) |}.

Inductive ResponseShape : Type :=
| CatShaped (s : CatShape)
| ListShaped (l : list CatShape)
| ErrorShaped.

Definition shape_of_response (resp : Response) : ResponseShape :=
  match resp with
  | CatResponse (Resolved c) => CatShaped (shape_of_cat c)
  | ListResponse (Resolved l) => ListShaped (map shape_of_cat l)
  | CatResponse (Rejected _) | ListResponse (Rejected _) => ErrorShaped
  end.

(** A Cat that carries the two fields a store is to assign, [id] and
    [created]. *)
Definition stamped (c : Cat) : bool :=
  present (id c) && present (created c).

(** A repository that stamps what it saves and holds only stamped
    Cats: whenever [save] of a body resolves, the Cat it resolves to
    carries [id] and [created] (the primary key is generated and the
    timestamp defaults to the insertion time), and whenever [find]
    resolves, so does every Cat found. *)
Definition save_stamps {R : Type} `{Repository R} (body : Cat) (repo : R) : Prop :=
  forall r : Cat, fst (save body repo) = Resolved r -> stamped r = true.

Definition find_stamped {R : Type} `{Repository R} (repo : R) : Prop :=
  forall l : list Cat, fst (find repo) = Resolved l -> forallb stamped l = true.

(** ** Sample requests *)
Definition tom : Cat :=
  {| id := None; name := Some "Tom"%string; color := Some "black"%string;
     created := None |}.

Definition felix : Cat :=
  {| id := None; name := Some "Felix"%string; color := None; created := None |}.

(** A body that supplies [id] and [created] itself. *)
Definition tom_1999 : Cat :=
  {| id := Some 7%Z; name := Some "Tom"%string; color := Some "black"%string;
     created := Some 946684799000%Z |}.

(** ** Invariant of the table

    Every row carries a generated id between 1 and the last value of the
    sequence, and no two rows carry the same id. *)
Definition generated (db : CatsTable.Database) (c : Cat) : Prop :=
  exists i : Z, id c = Some i /\ (1 <= i <= CatsTable.sequence db)%Z.

Definition table_wf (db : CatsTable.Database) : Prop :=
  (0 <= CatsTable.sequence db)%Z
  /\ Forall (generated db) (CatsTable.rows db)
  /\ NoDup (map id (CatsTable.rows db)).

(** ** The first [CatsController] of the walkthrough (README lines 70-86)

    Before the service is extracted the controller keeps the array
    itself. *)
Module InlineCatsController.

(** [private readonly cats: Cat[] = [];] *)
Record CatsController : Type := { cats : list Cat }.

(** The state of a freshly constructed controller. *)
Definition new : CatsController := {| cats := [] |}.

(** [async create(@Body() cat: Cat): Promise<Cat> { this.cats.push(cat); return cat }] *)
Definition create (cat : Cat) (this : CatsController)
  : Promise Cat * CatsController :=
  (Resolved cat, {| cats := cats this ++ [cat] |}).

(** [async findAll(): Promise<Cat[]> { return this.cats; }] *)
Definition findAll (this : CatsController)
  : Promise (list Cat) * CatsController :=
  (Resolved (cats this), this).

(** [@Post()] and [@Get()] of this controller. *)
Definition dispatch (req : Request) (this : CatsController)
  : Response * CatsController :=
  match req with
  | Post body => let (r, this') := create body this in (CatResponse r, this')
  | Get => let (r, this') := findAll this in (ListResponse r, this')
  end.

Fixpoint serve (reqs : list Request) (this : CatsController)
  : list Response * CatsController :=
  match reqs with
  | [] => ([], this)
  | req :: reqs' =>
      let (resp, this') := dispatch req this in
      let (resps, this'') := serve reqs' this' in
      (resp :: resps, this'')
  end.

End InlineCatsController.

(** ** The repository called directly

    [save] for a POST body and [find] for a GET, with no service and no
    controller in between. *)
Section Querying.

Context {R : Type} `{Repository R}.

Definition query (req : Request) (repo : R) : Response * R :=
  match req with
  | Post body => let (r, repo') := save body repo in (CatResponse r, repo')
  | Get => let (r, repo') := find repo in (ListResponse r, repo')
  end.

Fixpoint queries (reqs : list Request) (repo : R) : list Response * R :=
  match reqs with
  | [] => ([], repo)
  | req :: reqs' =>
      let (resp, repo') := query req repo in
      let (resps, repo'') := queries reqs' repo' in
      (resp :: resps, repo'')
  end.

End Querying.

(** ** The in-memory service with its array on the heap

    [this.cats] is a reference to an array object: [push] changes that
    object in place and [findAll] returns the reference, not a copy.
    Here the arrays live in a heap, addressed by position; the [readonly]
    field of the service holds an address that never changes. *)
Module LiveCatsService.

Definition Ref : Type := nat.
Definition Heap : Type := list (list Cat).

(** The elements of the array at an address. *)
Definition read (h : Heap) (r : Ref) : list Cat := nth r h [].

(** The heap with the array at an address replaced; an address that was
    never allocated is left alone. *)
Fixpoint store (r : Ref) (a : list Cat) (h : Heap) : Heap :=
  match h, r with
  | [], _ => []
  | _ :: h', O => a :: h'
  | x :: h', S r' => x :: store r' a h'
  end.

(** [array.push(cat)] *)
Definition push (r : Ref) (cat : Cat) (h : Heap) : Heap :=
  store r (read h r ++ [cat]) h.

(** [private readonly cats: Cat[]] *)
Record CatsService : Type := { cats : Ref }.

(** The constructor: the field initialiser [= []] allocates a new empty
    array. *)
Definition new (h : Heap) : CatsService * Heap :=
  ({| cats := List.length h |}, h ++ [[]]).

(** [create(cat: Cat): Cat { this.cats.push(cat); return cat }] *)
Definition create (cat : Cat) (this : CatsService) (h : Heap) : Cat * Heap :=
  (cat, push (cats this) cat h).

(** [findAll(): Cat[] { return this.cats; }] *)
Definition findAll (this : CatsService) (h : Heap) : Ref * Heap :=
  (cats this, h).

(** A request answered through the controller, the array of a GET read
    off the heap as soon as [findAll] has returned it, as the framework
    does when it serialises the response. *)
Definition call (req : Request) (this : CatsService) (h : Heap) : Response * Heap :=
  match req with
  | Post body =>
      let (r, h') := create body this h in (CatResponse (Resolved r), h')
  | Get =>
      let (r, h') := findAll this h in (ListResponse (Resolved (read h' r)), h')
  end.

Fixpoint calls (reqs : list Request) (this : CatsService) (h : Heap)
  : list Response * Heap :=
  match reqs with
  | [] => ([], h)
  | req :: reqs' =>
      let (resp, h') := call req this h in
      let (resps, h'') := calls reqs' this h' in
      (resp :: resps, h'')
  end.

End LiveCatsService.

(** * Properties *)

(** ** The controller is a pass-through *)

Section ControllerFacts.

Context {S : Type} `{Store S}.

Lemma controller_eta (this : CatsController.CatsController S) :
  {| CatsController.catsService := CatsController.catsService this |} = this.
Proof. destruct this; reflexivity. Qed.

Lemma controller_create_unfold (cat : Cat) (this : CatsController.CatsController S) :
  CatsController.create cat this =
  (fst (store_create cat (CatsController.catsService this)),
   {| CatsController.catsService :=
        snd (store_create cat (CatsController.catsService this)) |}).
Proof.
  unfold CatsController.create.
  destruct (store_create cat (CatsController.catsService this)); reflexivity.
Qed.

Lemma controller_findAll_unfold (this : CatsController.CatsController S) :
  CatsController.findAll this =
  (fst (store_findAll (CatsController.catsService this)),
   {| CatsController.catsService :=
        snd (store_findAll (CatsController.catsService this)) |}).
Proof.
  unfold CatsController.findAll.
  destruct (store_findAll (CatsController.catsService this)); reflexivity.
Qed.

Lemma dispatch_call (req : Request) (this : CatsController.CatsController S) :
  dispatch req this =
  (fst (call req (CatsController.catsService this)),
   {| CatsController.catsService :=
        snd (call req (CatsController.catsService this)) |}).
Proof.
  destruct req as [body|]; simpl.
  - rewrite controller_create_unfold.
    destruct (store_create body (CatsController.catsService this)); reflexivity.
  - rewrite controller_findAll_unfold.
    destruct (store_findAll (CatsController.catsService this)); reflexivity.
Qed.

Lemma serve_calls (reqs : list Request) :
  forall this : CatsController.CatsController S,
    serve reqs this =
    (fst (calls reqs (CatsController.catsService this)),
     {| CatsController.catsService :=
          snd (calls reqs (CatsController.catsService this)) |}).
Proof.
  induction reqs as [|req reqs IH]; intros this; simpl.
  - now rewrite controller_eta.
  - rewrite dispatch_call, IH; simpl.
    destruct (call req (CatsController.catsService this)) as [resp svc']; simpl.
    destruct (calls reqs svc'); reflexivity.
Qed.

Lemma serve_app (xs ys : list Request) :
  forall this : CatsController.CatsController S,
    serve (xs ++ ys) this =
    (fst (serve xs this) ++ fst (serve ys (snd (serve xs this))),
     snd (serve ys (snd (serve xs this)))).
Proof.
  induction xs as [|x xs IH]; intros this; simpl.
  - destruct (serve ys this); reflexivity.
  - destruct (dispatch x this) as [resp this']; rewrite IH.
    destruct (serve xs this') as [rs this'']; simpl.
    reflexivity.
Qed.

End ControllerFacts.

(** C4: [CatsController.create] and [CatsController.findAll] return what
    the injected service's [create] and [findAll] return, unchanged, and
    leave the service in the state these left it in; so does any sequence
    of requests; and a controller is nothing but its service: it is
    rebuilt whole from the service it holds. *)
Theorem controller_delegates :
  forall (S : Type) (store : Store S) (this : CatsController.CatsController S),
    (forall cat : Cat,
        fst (CatsController.create cat this)
        = fst (store_create cat (CatsController.catsService this))
        /\ CatsController.catsService (snd (CatsController.create cat this))
           = snd (store_create cat (CatsController.catsService this)))
    /\ (fst (CatsController.findAll this)
        = fst (store_findAll (CatsController.catsService this))
        /\ CatsController.catsService (snd (CatsController.findAll this))
           = snd (store_findAll (CatsController.catsService this)))
    /\ (forall reqs : list Request,
           fst (serve reqs this) = fst (calls reqs (CatsController.catsService this))
           /\ CatsController.catsService (snd (serve reqs this))
              = snd (calls reqs (CatsController.catsService this)))
    /\ {| CatsController.catsService := CatsController.catsService this |} = this.
Proof.
  intros S store this. repeat split.
  - now rewrite controller_create_unfold.
  - now rewrite controller_create_unfold.
  - now rewrite controller_findAll_unfold.
  - now rewrite controller_findAll_unfold.
  - now rewrite serve_calls.
  - now rewrite serve_calls.
  - apply controller_eta.
Qed.

(** ** [ping] *)

(** C9: for every user-agent string [s], [ping] returns ["pong - "]
    followed by [s], whatever controller instance serves the request. *)
Theorem ping_pong :
  forall (A B : Type) (this : AppController.AppController A)
         (other : AppController.AppController B) (s : string),
    AppController.ping this (Some s) = ("pong - " ++ s)%string
    /\ AppController.ping other (Some s) = AppController.ping this (Some s).
Proof. intros; split; reflexivity. Qed.

(** ** The in-memory service *)

Lemma memory_calls_cats (reqs : list Request) :
  forall svc : MemoryCatsService.CatsService,
    MemoryCatsService.cats (snd (calls reqs svc))
    = MemoryCatsService.cats svc ++ posted reqs.
Proof.
  induction reqs as [|[body|] reqs IH]; intros svc; simpl.
  - now rewrite app_nil_r.
  - specialize (IH {| MemoryCatsService.cats := MemoryCatsService.cats svc ++ [body] |}).
    destruct (calls reqs _) as [rs svc']; simpl in *.
    now rewrite IH, <- app_assoc.
  - specialize (IH svc).
    destruct (calls reqs svc) as [rs svc']; simpl in *.
    exact IH.
Qed.

Lemma memory_serve_cats (reqs : list Request)
      (this : CatsController.CatsController MemoryCatsService.CatsService) :
  MemoryCatsService.cats (CatsController.catsService (snd (serve reqs this)))
  = MemoryCatsService.cats (CatsController.catsService this) ++ posted reqs.
Proof. rewrite serve_calls; simpl. apply memory_calls_cats. Qed.

Lemma memory_create (body : Cat)
      (this : CatsController.CatsController MemoryCatsService.CatsService) :
  CatsController.create body this
  = (Resolved body,
     {| CatsController.catsService :=
          {| MemoryCatsService.cats :=
               MemoryCatsService.cats (CatsController.catsService this) ++ [body] |} |}).
Proof. reflexivity. Qed.

Lemma memory_findAll
      (this : CatsController.CatsController MemoryCatsService.CatsService) :
  CatsController.findAll this
  = (Resolved (MemoryCatsService.cats (CatsController.catsService this)), this).
Proof. destruct this; reflexivity. Qed.

Lemma posted_map_Post (cs : list Cat) : posted (map Post cs) = cs.
Proof. induction cs as [|c cs IH]; simpl; [reflexivity | now rewrite IH]. Qed.

(** C6: whatever requests the in-memory store has served, [findAll]
    returns every Cat it holds, those it held before followed by the
    bodies of the POST requests in the order they came, and leaves the
    store as it is; from a new store, exactly the posted bodies in
    order. *)
Theorem memory_findAll_insertion_order :
  forall (reqs : list Request)
         (this : CatsController.CatsController MemoryCatsService.CatsService),
    CatsController.findAll (snd (serve reqs this))
    = (Resolved (MemoryCatsService.cats (CatsController.catsService this)
                 ++ posted reqs),
       snd (serve reqs this))
    /\ fst (CatsController.findAll (snd (serve reqs volatile)))
       = Resolved (posted reqs).
Proof.
  intros reqs this; split.
  - now rewrite memory_findAll, memory_serve_cats.
  - now rewrite memory_findAll, memory_serve_cats.
Qed.

Lemma same_fields_refl (cs : list Cat) :
  Forall2 (fun r c => name r = name c /\ color r = color c) cs cs.
Proof. induction cs as [|c cs IH]; constructor; auto. Qed.

(** C3: from an empty in-memory store, after the [N] create calls of
    [bodies], [findAll] returns [N] records, and the records and the
    create calls are paired one to one, in order: each record has the
    [name] and the [color] of its call. *)
Theorem memory_findAll_after_creates :
  forall bodies : list Cat,
  exists found : list Cat,
    fst (CatsController.findAll (snd (serve (map Post bodies) volatile)))
    = Resolved found
    /\ List.length found = List.length bodies
    /\ Forall2 (fun r c => name r = name c /\ color r = color c) found bodies.
Proof.
  intros bodies. exists bodies.
  rewrite memory_findAll, memory_serve_cats, posted_map_Post; simpl.
  repeat split. apply same_fields_refl.
Qed.

(** ** The repository-backed service, over any repository *)

Section RepositoryFacts.

Context {R : Type} `{Repository R}.

Lemma repository_create_unfold (cat : Cat) (this : RepositoryCatsService.CatsService R) :
  RepositoryCatsService.create cat this
  = (fst (save cat (RepositoryCatsService.repository this)),
     {| RepositoryCatsService.repository :=
          snd (save cat (RepositoryCatsService.repository this));
        RepositoryCatsService.cats := RepositoryCatsService.cats this |}).
Proof.
  unfold RepositoryCatsService.create.
  destruct (save cat (RepositoryCatsService.repository this)); reflexivity.
Qed.

Lemma repository_findAll_unfold (this : RepositoryCatsService.CatsService R) :
  RepositoryCatsService.findAll this
  = (fst (find (RepositoryCatsService.repository this)),
     {| RepositoryCatsService.repository :=
          snd (find (RepositoryCatsService.repository this));
        RepositoryCatsService.cats := RepositoryCatsService.cats this |}).
Proof.
  unfold RepositoryCatsService.findAll.
  destruct (find (RepositoryCatsService.repository this)); reflexivity.
Qed.

(** One call neither looks at the [cats] field nor touches it. *)
Lemma repository_call_frame (req : Request) (repo : R) (held : list Cat) :
  call req {| RepositoryCatsService.repository := repo;
              RepositoryCatsService.cats := held |}
  = (fst (call req (RepositoryCatsService.new repo)),
     {| RepositoryCatsService.repository :=
          RepositoryCatsService.repository
            (snd (call req (RepositoryCatsService.new repo)));
        RepositoryCatsService.cats := held |}).
Proof.
  destruct req as [body|]; simpl.
  - rewrite !repository_create_unfold; reflexivity.
  - rewrite !repository_findAll_unfold; reflexivity.
Qed.

Lemma repository_calls_frame (reqs : list Request) :
  forall (repo : R) (held : list Cat),
    calls reqs {| RepositoryCatsService.repository := repo;
                  RepositoryCatsService.cats := held |}
    = (fst (calls reqs (RepositoryCatsService.new repo)),
       {| RepositoryCatsService.repository :=
            RepositoryCatsService.repository
              (snd (calls reqs (RepositoryCatsService.new repo)));
          RepositoryCatsService.cats := held |}).
Proof.
  induction reqs as [|req reqs IH]; intros repo held.
  - reflexivity.
  - cbn [calls].
    rewrite (repository_call_frame req repo held).
    pose proof (repository_call_frame req repo []) as Hnew.
    fold (RepositoryCatsService.new repo) in Hnew.
    destruct (call req (RepositoryCatsService.new repo)) as [resp [repo' held']].
    cbn [fst snd RepositoryCatsService.repository] in *.
    injection Hnew as Hheld; subst held'.
    rewrite (IH repo' held).
    fold (RepositoryCatsService.new repo').
    destruct (calls reqs (RepositoryCatsService.new repo')); reflexivity.
Qed.

End RepositoryFacts.

(** C10: in the repository-backed service the [cats] array is dead
    state.  After any sequence of [create] and [findAll] calls on a
    constructed service it is still the empty array; and had it held
    anything else, every result and the repository would be the same,
    and it would still hold what it held. *)
Theorem repository_service_cats_dead :
  forall (R : Type) (ops : Repository R) (repo : R) (held : list Cat)
         (reqs : list Request),
    let constructed := RepositoryCatsService.new repo in
    let other := {| RepositoryCatsService.repository := repo;
                    RepositoryCatsService.cats := held |} in
    RepositoryCatsService.cats (snd (calls reqs constructed)) = []
    /\ fst (calls reqs other) = fst (calls reqs constructed)
    /\ RepositoryCatsService.repository (snd (calls reqs other))
       = RepositoryCatsService.repository (snd (calls reqs constructed))
    /\ RepositoryCatsService.cats (snd (calls reqs other)) = held.
Proof.
  intros R ops repo held reqs constructed other.
  unfold other.
  rewrite (repository_calls_frame reqs repo held).
  unfold constructed at 1. unfold RepositoryCatsService.new at 1.
  rewrite (repository_calls_frame reqs repo []).
  cbn [fst snd RepositoryCatsService.cats RepositoryCatsService.repository].
  repeat split.
Qed.

(** ** The service over the [cats] table *)

Lemma table_save_rows (cat : Cat) (db : CatsTable.Database) :
  exists extra : list Cat,
    CatsTable.rows (snd (CatsTable.table_save cat db)) = CatsTable.rows db ++ extra.
Proof.
  unfold CatsTable.table_save.
  destruct (name cat); simpl.
  - eexists; reflexivity.
  - exists []; now rewrite app_nil_r.
Qed.

Lemma table_call_rows (req : Request) (svc : TableService) :
  exists extra : list Cat,
    CatsTable.rows (RepositoryCatsService.repository (snd (call req svc)))
    = CatsTable.rows (RepositoryCatsService.repository svc) ++ extra.
Proof.
  destruct req as [body|]; simpl.
  - rewrite repository_create_unfold; simpl. apply table_save_rows.
  - exists []; now rewrite app_nil_r.
Qed.

Lemma table_calls_rows (reqs : list Request) :
  forall svc : TableService,
  exists extra : list Cat,
    CatsTable.rows (RepositoryCatsService.repository (snd (calls reqs svc)))
    = CatsTable.rows (RepositoryCatsService.repository svc) ++ extra.
Proof.
  induction reqs as [|req reqs IH]; intros svc.
  - exists []; simpl; now rewrite app_nil_r.
  - cbn [calls].
    destruct (table_call_rows req svc) as [e1 H1].
    destruct (call req svc) as [resp svc']; cbn [snd] in H1.
    destruct (IH svc') as [e2 H2].
    destruct (calls reqs svc') as [resps svc'']; cbn [snd] in *.
    exists (e1 ++ e2). now rewrite H2, H1, app_assoc.
Qed.

Lemma generated_mono (db db' : CatsTable.Database) (c : Cat) :
  (CatsTable.sequence db <= CatsTable.sequence db')%Z ->
  generated db c -> generated db' c.
Proof. intros Hle [i [Hid Hi]]. exists i; split; [assumption | lia]. Qed.

Lemma table_save_wf (cat : Cat) (db : CatsTable.Database) :
  table_wf db -> table_wf (snd (CatsTable.table_save cat db)).
Proof.
  intros (Hseq & Hgen & Hnodup).
  unfold CatsTable.table_save.
  destruct (name cat) as [n|]; simpl; [|now repeat split].
  repeat split; simpl.
  - lia.
  - apply Forall_app; split.
    + eapply Forall_impl; [|exact Hgen].
      intros c. apply generated_mono; simpl; lia.
    + constructor; [|constructor].
      eexists; split; [reflexivity|simpl; lia].
  - rewrite map_app; simpl.
    apply NoDup_app; [assumption | constructor; [intros []|constructor] |].
    intros o Hin [Heq|[]]; subst o.
    apply in_map_iff in Hin as (c & Hid & Hc).
    rewrite Forall_forall in Hgen.
    destruct (Hgen c Hc) as (i & Hi & Hrange).
    rewrite Hid in Hi; injection Hi as <-. lia.
Qed.

Lemma table_call_wf (req : Request) (svc : TableService) :
  table_wf (RepositoryCatsService.repository svc) ->
  table_wf (RepositoryCatsService.repository (snd (call req svc))).
Proof.
  destruct req as [body|]; simpl.
  - rewrite repository_create_unfold; simpl. apply table_save_wf.
  - trivial.
Qed.

Lemma table_calls_wf (reqs : list Request) :
  forall svc : TableService,
    table_wf (RepositoryCatsService.repository svc) ->
    table_wf (RepositoryCatsService.repository (snd (calls reqs svc))).
Proof.
  induction reqs as [|req reqs IH]; intros svc Hwf.
  - exact Hwf.
  - cbn [calls].
    pose proof (table_call_wf req svc Hwf) as Hwf'.
    destruct (call req svc) as [resp svc']; cbn [snd] in Hwf'.
    specialize (IH svc' Hwf').
    destruct (calls reqs svc') as [resps svc'']; exact IH.
Qed.

Lemma table_empty_wf (clock : Z -> Z) : table_wf (CatsTable.empty clock).
Proof. repeat split; simpl; [lia | constructor | constructor]. Qed.

Lemma table_findAll (this : CatsController.CatsController TableService) :
  CatsController.findAll this
  = (Resolved (CatsTable.rows
                 (RepositoryCatsService.repository (CatsController.catsService this))),
     this).
Proof. destruct this as [[db held]]; reflexivity. Qed.

(** Section 8's scenario on the table: creating Tom answers with id 1
    and the instant of the insertion, and [findAll] then answers with
    that one record. *)
Example table_scenario_tom :
  let stored := {| id := Some 1%Z; name := Some "Tom"%string;
                   color := Some "black"%string; created := Some 1588291200000%Z |} in
  fst (serve [Post tom; Get] (durable (fun _ => 1588291200000%Z)))
  = [CatResponse (Resolved stored); ListResponse (Resolved [stored])].
Proof. reflexivity. Qed.

(** The same scenario on the in-memory service: the answer is the body
    as it was posted, with neither [id] nor [created]. *)
Example memory_scenario_tom :
  fst (serve [Post tom; Get] volatile)
  = [CatResponse (Resolved tom); ListResponse (Resolved [tom])].
Proof. reflexivity. Qed.

(** ** Where [id] and [created] come from *)

(** C1, as the code has it: the in-memory store sets no [created] and
    overwrites none.  Its [create], and so the endpoint, answers with
    the body exactly as it was posted, [created] included, be it there
    or not, and stores that same body at the end of the array; and the
    repository-backed [create] hands the body, with the
    [created] it carries, to [repository.save] and answers with what
    [save] settles to. *)
Theorem create_keeps_posted_created :
  (forall (body : Cat)
          (this : CatsController.CatsController MemoryCatsService.CatsService),
      exists r : Cat,
        fst (CatsController.create body this) = Resolved r
        /\ r = body /\ created r = created body
        /\ MemoryCatsService.cats
             (CatsController.catsService (snd (CatsController.create body this)))
           = MemoryCatsService.cats (CatsController.catsService this) ++ [body])
  /\ (forall (R : Type) (ops : Repository R) (body : Cat)
             (this : CatsController.CatsController (RepositoryCatsService.CatsService R)),
         let repo := RepositoryCatsService.repository (CatsController.catsService this) in
         fst (CatsController.create body this) = fst (save body repo)
         /\ RepositoryCatsService.repository
              (CatsController.catsService (snd (CatsController.create body this)))
            = snd (save body repo)).
Proof.
  split.
  - intros body this. exists body. rewrite memory_create. repeat split.
  - intros R ops body this repo.
    rewrite controller_create_unfold; simpl.
    rewrite repository_create_unfold; simpl.
    split; reflexivity.
Qed.

(** C1 fails on the in-memory store: a body posted with a [created] of
    its own is answered with that very [created]. *)
Lemma created_is_the_posted_one :
  created tom_1999 = Some 946684799000%Z
  /\ exists r : Cat,
       fst (CatsController.create tom_1999 volatile) = Resolved r
       /\ created r = Some 946684799000%Z.
Proof. split; [reflexivity | exists tom_1999; split; reflexivity]. Qed.

(** C2, as the code has it: the in-memory store assigns no [id]; the
    Cats it holds carry the ids of the posted bodies, in order, so they
    are pairwise distinct exactly when the posted ids are.  On the table
    the ids are generated, and after any sequence of requests no two
    rows carry the same id. *)
Theorem ids_of_stored_cats :
  (forall reqs : list Request,
      exists found : list Cat,
        fst (CatsController.findAll (snd (serve reqs volatile))) = Resolved found
        /\ map id found = map id (posted reqs)
        /\ (NoDup (map id found) <-> NoDup (map id (posted reqs))))
  /\ (forall (clock : Z -> Z) (reqs : list Request),
         exists found : list Cat,
           fst (CatsController.findAll (snd (serve reqs (durable clock))))
           = Resolved found
           /\ NoDup (map id found)
           /\ Forall (fun c => exists i : Z, id c = Some i) found).
Proof.
  split.
  - intros reqs. exists (posted reqs).
    rewrite memory_findAll, memory_serve_cats; simpl.
    repeat split; trivial.
  - intros clock reqs.
    rewrite table_findAll, serve_calls; simpl.
    eexists; split; [reflexivity|].
    pose proof (table_calls_wf reqs (RepositoryCatsService.new (CatsTable.empty clock))
                               (table_empty_wf clock)) as (_ & Hgen & Hnodup).
    split; [exact Hnodup|].
    eapply Forall_impl; [|exact Hgen].
    intros c (i & Hi & _); now exists i.
Qed.

(** C2 fails on the in-memory store: two create calls with the same
    [name] and [color] leave two Cats with the same [id] in the store. *)
Lemma same_id_stored_twice :
  exists found : list Cat,
    fst (CatsController.findAll (snd (serve [Post tom_1999; Post tom_1999] volatile)))
    = Resolved found
    /\ map id found = [Some 7%Z; Some 7%Z]
    /\ ~ NoDup (map id found).
Proof.
  exists [tom_1999; tom_1999]. repeat split.
  intros Hnodup. inversion Hnodup as [|x l Hnotin _]; subst.
  apply Hnotin. now left.
Qed.

(** C7: no request changes a record that is already stored.  A Cat held
    at some position of the in-memory array, or in some row of the
    table, is still there, the same Cat with the same [created], after
    any further sequence of requests. *)
Theorem created_never_changes :
  (forall (reqs : list Request)
          (this : CatsController.CatsController MemoryCatsService.CatsService)
          (i : nat) (c : Cat),
      nth_error (MemoryCatsService.cats (CatsController.catsService this)) i = Some c ->
      exists c' : Cat,
        nth_error (MemoryCatsService.cats
                     (CatsController.catsService (snd (serve reqs this)))) i = Some c'
        /\ c' = c /\ created c' = created c)
  /\ (forall (reqs : list Request) (this : CatsController.CatsController TableService)
             (i : nat) (c : Cat),
         nth_error (CatsTable.rows (RepositoryCatsService.repository
                                      (CatsController.catsService this))) i = Some c ->
         exists c' : Cat,
           nth_error (CatsTable.rows
                        (RepositoryCatsService.repository
                           (CatsController.catsService (snd (serve reqs this))))) i
           = Some c'
           /\ c' = c /\ created c' = created c).
Proof.
  split.
  - intros reqs this i c Hc. exists c.
    rewrite memory_serve_cats.
    rewrite nth_error_app1; [auto|].
    apply nth_error_Some; congruence.
  - intros reqs this i c Hc. exists c.
    rewrite serve_calls; simpl.
    destruct (table_calls_rows reqs (CatsController.catsService this)) as [extra ->].
    rewrite nth_error_app1; [auto|].
    apply nth_error_Some; congruence.
Qed.

Lemma created_never_changes_witness :
  (exists c' : Cat,
      nth_error (MemoryCatsService.cats
                   (CatsController.catsService
                      (snd (serve [Post felix; Get; Post tom]
                                  (snd (serve [Post tom_1999] volatile)))))) 0
      = Some c'
      /\ c' = tom_1999 /\ created c' = created tom_1999)
  /\ (exists c' : Cat,
         nth_error (CatsTable.rows
                      (RepositoryCatsService.repository
                         (CatsController.catsService
                            (snd (serve [Post felix; Get; Post tom_1999]
                                        (snd (serve [Post tom] (durable (fun i => i))))))))) 0
         = Some c'
         /\ c' = {| id := Some 1%Z; name := Some "Tom"%string;
                    color := Some "black"%string; created := Some 1%Z |}
         /\ created c' = Some 1%Z).
Proof.
  split.
  - apply (proj1 created_never_changes
                 [Post felix; Get; Post tom]
                 (snd (serve [Post tom_1999] volatile)) 0%nat).
    reflexivity.
  - apply (proj2 created_never_changes
                 [Post felix; Get; Post tom_1999]
                 (snd (serve [Post tom] (durable (fun i => i)))) 0%nat).
    reflexivity.
Defined.

(** C8: a body that supplies [name] and omits [color] is created
    without error, on the in-memory store and on the table alike, and
    the Cat in the response has no [color]. *)
Theorem create_without_color :
  forall (body : Cat) (n : string),
    name body = Some n ->
    color body = None ->
    (forall this : CatsController.CatsController MemoryCatsService.CatsService,
        exists r : Cat,
          fst (CatsController.create body this) = Resolved r
          /\ name r = Some n /\ color r = None)
    /\ (forall this : CatsController.CatsController TableService,
           exists r : Cat,
             fst (CatsController.create body this) = Resolved r
             /\ name r = Some n /\ color r = None).
Proof.
  intros body n Hname Hcolor; split; intros this.
  - exists body. now rewrite memory_create.
  - rewrite controller_create_unfold; simpl.
    rewrite repository_create_unfold; simpl.
    unfold CatsTable.table_save. rewrite Hname; simpl.
    eexists; split; [reflexivity|]. simpl. now split.
Qed.

Lemma create_without_color_witness :
  (forall this : CatsController.CatsController MemoryCatsService.CatsService,
      exists r : Cat,
        fst (CatsController.create felix this) = Resolved r
        /\ name r = Some "Felix"%string /\ color r = None)
  /\ (forall this : CatsController.CatsController TableService,
         exists r : Cat,
           fst (CatsController.create felix this) = Resolved r
           /\ name r = Some "Felix"%string /\ color r = None).
Proof.
  apply (create_without_color felix (n := "Felix"%string)); reflexivity.
Defined.

(** ** The two backends compared *)

Lemma stamped_of_shape (c : Cat) :
  stamped c = has_id (shape_of_cat c) && has_created (shape_of_cat c).
Proof. reflexivity. Qed.

Lemma same_shape_same_stamp (c1 c2 : Cat) :
  shape_of_cat c1 = shape_of_cat c2 -> stamped c1 = stamped c2.
Proof. intros Heq. now rewrite !stamped_of_shape, Heq. Qed.

Lemma same_shapes_same_stamps (l1 : list Cat) :
  forall l2 : list Cat,
    map shape_of_cat l1 = map shape_of_cat l2 ->
    forallb stamped l1 = forallb stamped l2.
Proof.
  induction l1 as [|c1 l1 IH]; intros [|c2 l2] Heq; cbn [map forallb] in *;
    try discriminate; [reflexivity|].
  injection Heq as Hid _ _ Hcreated Hl.
  rewrite (IH l2 Hl). unfold stamped. now rewrite Hid, Hcreated.
Qed.

Lemma repository_controller_create {R : Type} `{Repository R} (body : Cat)
      (this : CatsController.CatsController (RepositoryCatsService.CatsService R)) :
  fst (CatsController.create body this)
  = fst (save body (RepositoryCatsService.repository (CatsController.catsService this))).
Proof.
  rewrite controller_create_unfold; simpl.
  now rewrite repository_create_unfold.
Qed.

Lemma repository_controller_findAll {R : Type} `{Repository R}
      (this : CatsController.CatsController (RepositoryCatsService.CatsService R)) :
  fst (CatsController.findAll this)
  = fst (find (RepositoryCatsService.repository (CatsController.catsService this))).
Proof.
  rewrite controller_findAll_unfold; simpl.
  now rewrite repository_findAll_unfold.
Qed.




(** ** The controller before and after the service is extracted *)

Lemma inline_serve_calls (reqs : list Request) :
  forall held : list Cat,
    fst (InlineCatsController.serve reqs {| InlineCatsController.cats := held |})
    = fst (calls reqs {| MemoryCatsService.cats := held |})
    /\ InlineCatsController.cats
         (snd (InlineCatsController.serve reqs {| InlineCatsController.cats := held |}))
       = MemoryCatsService.cats (snd (calls reqs {| MemoryCatsService.cats := held |})).
Proof.
  induction reqs as [|[body|] reqs IH]; intros held; simpl.
  - split; reflexivity.
  - destruct (IH (held ++ [body])) as [Hresp Hheld].
    destruct (InlineCatsController.serve reqs _) as [r1 c1].
    destruct (calls reqs _) as [r2 m2]; simpl in *.
    split; [now rewrite Hresp | exact Hheld].
  - destruct (IH held) as [Hresp Hheld].
    destruct (InlineCatsController.serve reqs _) as [r1 c1].
    destruct (calls reqs _) as [r2 m2]; simpl in *.
    split; [now rewrite Hresp | exact Hheld].
Qed.

(** X1: extracting the array into [CatsService] changes nothing a client
    can see.  Holding the same Cats, the first controller of the
    walkthrough, which keeps the array itself, and the final controller
    over the in-memory service answer every sequence of requests with the
    same responses and hold the same Cats afterwards. *)
Theorem service_extraction_preserves_responses :
  forall (reqs : list Request) (held : list Cat),
    let inline := {| InlineCatsController.cats := held |} in
    let injected :=
      {| CatsController.catsService := {| MemoryCatsService.cats := held |} |} in
    fst (InlineCatsController.serve reqs inline) = fst (serve reqs injected)
    /\ InlineCatsController.cats (snd (InlineCatsController.serve reqs inline))
       = MemoryCatsService.cats (CatsController.catsService (snd (serve reqs injected))).
Proof.
  intros reqs held inline injected.
  unfold inline, injected. rewrite serve_calls; simpl.
  apply inline_serve_calls.
Qed.

(** ** Responses in the middle of a sequence *)

Lemma serve_length {S : Type} `{Store S} (reqs : list Request) :
  forall this : CatsController.CatsController S,
    List.length (fst (serve reqs this)) = List.length reqs.
Proof.
  induction reqs as [|req reqs IH]; intros this; simpl.
  - reflexivity.
  - destruct (dispatch req this) as [resp this'].
    specialize (IH this').
    destruct (serve reqs this') as [resps this'']; simpl in *.
    now rewrite IH.
Qed.

Lemma serve_nth_after {S : Type} `{Store S} (before rest : list Request)
      (this : CatsController.CatsController S) :
  nth_error (fst (serve (before ++ rest) this)) (List.length before)
  = nth_error (fst (serve rest (snd (serve before this)))) 0.
Proof.
  rewrite serve_app; cbn [fst].
  rewrite nth_error_app2; rewrite serve_length; [|lia].
  now rewrite Nat.sub_diag.
Qed.

(** X2: the in-memory endpoint never rejects a POST and never alters
    one.  Wherever a POST comes in a sequence of requests and whatever
    its body holds, a missing [name] included, the response to it is
    that body, resolved. *)
Theorem memory_post_echoes_body :
  forall (before after : list Request) (body : Cat)
         (this : CatsController.CatsController MemoryCatsService.CatsService),
    nth_error (fst (serve (before ++ Post body :: after) this)) (List.length before)
    = Some (CatResponse (Resolved body)).
Proof.
  intros before after body this.
  rewrite serve_nth_after. cbn [serve dispatch].
  rewrite memory_create.
  destruct (serve after _); reflexivity.
Qed.

(** X3: a GET on the in-memory endpoint is answered with the Cats held
    at the start followed by the bodies posted before it, in order, and
    with none of those posted after it. *)
Theorem memory_get_sees_earlier_posts :
  forall (before after : list Request)
         (this : CatsController.CatsController MemoryCatsService.CatsService),
    nth_error (fst (serve (before ++ Get :: after) this)) (List.length before)
    = Some (ListResponse
              (Resolved (MemoryCatsService.cats (CatsController.catsService this)
                         ++ posted before))).
Proof.
  intros before after this.
  rewrite serve_nth_after. cbn [serve dispatch].
  rewrite memory_findAll, memory_serve_cats.
  destruct (serve after _); reflexivity.
Qed.

(** ** The repository-backed stack is the repository *)

Lemma repository_calls_queries {R : Type} `{Repository R} (reqs : list Request) :
  forall svc : RepositoryCatsService.CatsService R,
    fst (calls reqs svc) = fst (queries reqs (RepositoryCatsService.repository svc))
    /\ RepositoryCatsService.repository (snd (calls reqs svc))
       = snd (queries reqs (RepositoryCatsService.repository svc)).
Proof.
  induction reqs as [|req reqs IH]; intros svc.
  - split; reflexivity.
  - cbn [calls queries].
    assert (Hcall : fst (call req svc) = fst (query req (RepositoryCatsService.repository svc))
                    /\ RepositoryCatsService.repository (snd (call req svc))
                       = snd (query req (RepositoryCatsService.repository svc))).
    { destruct req as [body|]; simpl.
      - rewrite repository_create_unfold.
        destruct (save body (RepositoryCatsService.repository svc)); split; reflexivity.
      - rewrite repository_findAll_unfold.
        destruct (find (RepositoryCatsService.repository svc)); split; reflexivity. }
    destruct Hcall as [Hresp Hrepo].
    destruct (call req svc) as [resp svc'].
    destruct (query req (RepositoryCatsService.repository svc)) as [resp' repo'].
    cbn [fst snd] in *. subst resp' repo'.
    destruct (IH svc') as [IHresp IHrepo].
    destruct (calls reqs svc') as [resps svc''].
    destruct (queries reqs (RepositoryCatsService.repository svc')) as [resps' repo''].
    cbn [fst snd] in *. subst resps' repo''.
    split; reflexivity.
Qed.

(** X4: over any repository, the controller and the repository-backed
    service add nothing and hide nothing.  A sequence of requests is
    answered with exactly what [repository.save], for each POST body,
    and [repository.find], for each GET, settle to, rejections included
    and in the same order, and leaves the repository as those calls
    leave it: no call is skipped, repeated or retried. *)
Theorem repository_stack_is_transparent :
  forall (R : Type) (ops : Repository R) (reqs : list Request)
         (this : CatsController.CatsController (RepositoryCatsService.CatsService R)),
    let repo := RepositoryCatsService.repository (CatsController.catsService this) in
    fst (serve reqs this) = fst (queries reqs repo)
    /\ RepositoryCatsService.repository
         (CatsController.catsService (snd (serve reqs this)))
       = snd (queries reqs repo).
Proof.
  intros R ops reqs this repo.
  rewrite serve_calls; cbn [fst snd CatsController.catsService].
  apply repository_calls_queries.
Qed.

(** ** [ping] at the edges *)

(** X5: a request without a [user-agent] header is not an error for
    [ping]: it is answered ["pong - undefined"], which is also the
    answer to a request whose header is the text ["undefined"], so the
    response does not tell the two apart. *)
Theorem ping_without_header :
  forall (A : Type) (this : AppController.AppController A),
    AppController.ping this None = "pong - undefined"%string
    /\ AppController.ping this None
       = AppController.ping this (Some "undefined"%string).
Proof. intros; split; reflexivity. Qed.

(** X6: [ping] loses nothing of a header that is there: two requests
    with different [user-agent] strings get different responses. *)
Theorem ping_distinguishes_headers :
  forall (A : Type) (this : AppController.AppController A) (s1 s2 : string),
    s1 <> s2 ->
    AppController.ping this (Some s1) <> AppController.ping this (Some s2).
Proof.
  intros A this s1 s2 Hneq Heq. apply Hneq.
  unfold AppController.ping in Heq; simpl in Heq.
  now injection Heq.
Qed.

Lemma ping_distinguishes_headers_witness :
  AppController.ping {| AppController.appService := tt |} (Some "curl/7.68.0"%string)
  <> AppController.ping {| AppController.appService := tt |} (Some "PostmanRuntime/7.24.1"%string).
Proof.
  apply (@ping_distinguishes_headers unit {| AppController.appService := tt |}
           "curl/7.68.0"%string "PostmanRuntime/7.24.1"%string).
  discriminate.
Defined.

(** ** The array on the heap *)

Lemma store_length (r : LiveCatsService.Ref) (a : list Cat) :
  forall h : LiveCatsService.Heap,
    List.length (LiveCatsService.store r a h) = List.length h.
Proof.
  induction r as [|r IH]; intros [|x h]; simpl; auto.
Qed.

Lemma read_store_same (a : list Cat) :
  forall (h : LiveCatsService.Heap) (r : LiveCatsService.Ref),
    (r < List.length h)%nat ->
    LiveCatsService.read (LiveCatsService.store r a h) r = a.
Proof.
  unfold LiveCatsService.read.
  induction h as [|x h IH]; intros [|r] Hlt; simpl in *; try lia.
  - reflexivity.
  - apply IH; lia.
Qed.

Lemma read_store_other (a : list Cat) :
  forall (h : LiveCatsService.Heap) (r r' : LiveCatsService.Ref),
    r <> r' ->
    LiveCatsService.read (LiveCatsService.store r a h) r' = LiveCatsService.read h r'.
Proof.
  unfold LiveCatsService.read.
  induction h as [|x h IH]; intros [|r] [|r'] Hneq; simpl; try reflexivity.
  - congruence.
  - apply IH; congruence.
Qed.

Lemma firstn_store (a : list Cat) :
  forall (h : LiveCatsService.Heap) (r : LiveCatsService.Ref) (n : nat),
    (n <= r)%nat ->
    firstn n (LiveCatsService.store r a h) = firstn n h.
Proof.
  induction h as [|x h IH]; intros [|r] [|n] Hle; simpl; try reflexivity; try lia.
  f_equal. apply IH; lia.
Qed.

Lemma read_new (h : LiveCatsService.Heap) :
  LiveCatsService.read (snd (LiveCatsService.new h))
                       (LiveCatsService.cats (fst (LiveCatsService.new h))) = [].
Proof.
  unfold LiveCatsService.read; simpl.
  rewrite app_nth2, Nat.sub_diag; [reflexivity | lia].
Qed.

Lemma new_allocated (h : LiveCatsService.Heap) :
  (LiveCatsService.cats (fst (LiveCatsService.new h))
   < List.length (snd (LiveCatsService.new h)))%nat.
Proof. simpl. rewrite length_app; simpl; lia. Qed.

(** What a sequence of requests does to the heap: the service's array
    grows by the posted bodies, no array is allocated or freed, and the
    other arrays are as they were. *)
Lemma live_calls_heap (reqs : list Request) (this : LiveCatsService.CatsService) :
  forall h : LiveCatsService.Heap,
    (LiveCatsService.cats this < List.length h)%nat ->
    LiveCatsService.read (snd (LiveCatsService.calls reqs this h))
                         (LiveCatsService.cats this)
    = LiveCatsService.read h (LiveCatsService.cats this) ++ posted reqs
    /\ List.length (snd (LiveCatsService.calls reqs this h)) = List.length h
    /\ (forall r : LiveCatsService.Ref,
           r <> LiveCatsService.cats this ->
           LiveCatsService.read (snd (LiveCatsService.calls reqs this h)) r
           = LiveCatsService.read h r)
    /\ firstn (LiveCatsService.cats this) (snd (LiveCatsService.calls reqs this h))
       = firstn (LiveCatsService.cats this) h.
Proof.
  induction reqs as [|[body|] reqs IH]; intros h Hlt.
  - simpl. rewrite app_nil_r. repeat split.
  - cbn [LiveCatsService.calls LiveCatsService.call LiveCatsService.create].
    set (h' := LiveCatsService.push (LiveCatsService.cats this) body h).
    assert (Hlen : List.length h' = List.length h) by apply store_length.
    destruct (IH h') as (Hread & Hlen' & Hother & Hfirst); [lia|].
    destruct (LiveCatsService.calls reqs this h') as [resps h'']; cbn [snd] in *.
    repeat split.
    + rewrite Hread. unfold h', LiveCatsService.push.
      rewrite read_store_same by assumption.
      now rewrite <- app_assoc.
    + lia.
    + intros r Hneq. rewrite (Hother r Hneq).
      apply read_store_other; congruence.
    + rewrite Hfirst. apply firstn_store; lia.
  - cbn [LiveCatsService.calls LiveCatsService.call LiveCatsService.findAll].
    destruct (IH h Hlt) as (Hread & Hlen' & Hother & Hfirst).
    destruct (LiveCatsService.calls reqs this h) as [resps h'']; cbn [snd] in *.
    repeat split; assumption.
Qed.

Lemma live_calls_pure (reqs : list Request) (this : LiveCatsService.CatsService) :
  forall h : LiveCatsService.Heap,
    (LiveCatsService.cats this < List.length h)%nat ->
    fst (LiveCatsService.calls reqs this h)
    = fst (calls reqs {| MemoryCatsService.cats :=
                           LiveCatsService.read h (LiveCatsService.cats this) |}).
Proof.
  induction reqs as [|[body|] reqs IH]; intros h Hlt.
  - reflexivity.
  - cbn [LiveCatsService.calls LiveCatsService.call LiveCatsService.create].
    set (h' := LiveCatsService.push (LiveCatsService.cats this) body h).
    assert (Hlen : List.length h' = List.length h) by apply store_length.
    assert (Hread : LiveCatsService.read h' (LiveCatsService.cats this)
                    = LiveCatsService.read h (LiveCatsService.cats this) ++ [body])
      by (apply read_store_same; assumption).
    specialize (IH h'). rewrite Hread in IH.
    simpl.
    destruct (LiveCatsService.calls reqs this h') as [r1 h1].
    destruct (calls reqs _) as [r2 m2]; simpl in *.
    rewrite IH; [reflexivity | lia].
  - cbn [LiveCatsService.calls LiveCatsService.call LiveCatsService.findAll].
    specialize (IH h Hlt). simpl.
    destruct (LiveCatsService.calls reqs this h) as [r1 h1].
    destruct (calls reqs _) as [r2 m2]; simpl in *.
    now rewrite IH.
Qed.

(** X7: [findAll] hands out the service's own array, not a copy.  The
    array returned by a [findAll] holds the bodies posted before the
    call, and once further Cats are created the same returned array
    holds those as well. *)
Theorem findAll_returns_live_array :
  forall (h0 : LiveCatsService.Heap) (earlier later : list Request),
    let this := fst (LiveCatsService.new h0) in
    let h1 := snd (LiveCatsService.calls earlier this (snd (LiveCatsService.new h0))) in
    let returned := fst (LiveCatsService.findAll this h1) in
    let h2 := snd (LiveCatsService.calls later this
                     (snd (LiveCatsService.findAll this h1))) in
    LiveCatsService.read h1 returned = posted earlier
    /\ LiveCatsService.read h2 returned = posted earlier ++ posted later.
Proof.
  intros h0 earlier later this h1 returned h2.
  pose proof (new_allocated h0) as Hlt. fold this in Hlt.
  destruct (live_calls_heap earlier this _ Hlt) as (Hread1 & Hlen1 & _ & _).
  fold h1 in Hread1, Hlen1.
  assert (Hread1' : LiveCatsService.read h1 returned = posted earlier).
  { unfold returned; cbn [fst LiveCatsService.findAll].
    rewrite Hread1. unfold this. now rewrite read_new. }
  split; [exact Hread1'|].
  assert (Hlt1 : (LiveCatsService.cats this < List.length h1)%nat) by lia.
  destruct (live_calls_heap later this h1 Hlt1) as (Hread2 & _ & _ & _).
  unfold h2, returned; cbn [fst snd LiveCatsService.findAll].
  rewrite Hread2. f_equal. exact Hread1'.
Qed.

(** X8: read at once, the live array is the list of the state-passing
    model.  When every array returned by [findAll] is serialised as soon
    as it is returned, a newly constructed service on the heap answers
    any sequence of requests exactly as the controller over the
    in-memory service does. *)
Theorem live_service_serialised_at_once :
  forall (h0 : LiveCatsService.Heap) (reqs : list Request),
    fst (LiveCatsService.calls reqs (fst (LiveCatsService.new h0))
                               (snd (LiveCatsService.new h0)))
    = fst (serve reqs volatile).
Proof.
  intros h0 reqs.
  rewrite (live_calls_pure reqs _ _ (new_allocated h0)), read_new.
  now rewrite serve_calls.
Qed.

(** X9: the service touches no array but its own.  After any sequence
    of requests every array that was on the heap before the service was
    constructed is as it was, the array of a second service constructed
    beside it is still empty, and no further array has been allocated. *)
Theorem live_service_footprint :
  forall (h0 : LiveCatsService.Heap) (reqs : list Request),
    let this := fst (LiveCatsService.new h0) in
    let other := fst (LiveCatsService.new (snd (LiveCatsService.new h0))) in
    let h := snd (LiveCatsService.new (snd (LiveCatsService.new h0))) in
    let h' := snd (LiveCatsService.calls reqs this h) in
    firstn (List.length h0) h' = h0
    /\ LiveCatsService.read h' (LiveCatsService.cats other) = []
    /\ LiveCatsService.read h' (LiveCatsService.cats this) = posted reqs
    /\ List.length h' = List.length h.
Proof.
  intros h0 reqs this other h h'.
  assert (Hlt : (LiveCatsService.cats this < List.length h)%nat).
  { unfold this, h; simpl. rewrite !length_app; simpl; lia. }
  destruct (live_calls_heap reqs this h Hlt) as (Hread & Hlen & Hother & Hfirst).
  fold h' in Hread, Hlen, Hother, Hfirst.
  repeat split.
  - change (List.length h0) with (LiveCatsService.cats this).
    rewrite Hfirst. unfold this, h; simpl.
    rewrite <- app_assoc. rewrite firstn_app, Nat.sub_diag, firstn_all; simpl.
    now rewrite app_nil_r.
  - rewrite Hother.
    + unfold other, h. apply read_new.
    + unfold other, this; simpl. rewrite length_app; simpl; lia.
  - rewrite Hread. unfold this, h, LiveCatsService.read; simpl.
    rewrite <- app_assoc, app_nth2, Nat.sub_diag; [reflexivity | lia].
  - exact Hlen.
Qed.
